(** * super-dns-lookup: choice strategy, failover strategy, hosts file
      service and lookup controller

    A shallow embedding of the TypeScript sources

      - [lib/choice-strategy.ts]            (RoundRobinChoiceStrategy)
      - [lib/failover-strategy/failover-strategy.ts]
                                            (UniversalFailoverStrategy,
                                             UniversalHostsFileService)
      - [lib/lookup-controller/lookup-result.ts] (LookupController)

    JavaScript objects that are compared by identity (the arrays used as
    WeakMap keys) carry an explicit reference; a method that reads and
    writes [this] takes the fields it touches and returns them updated
    together with its completion (a returned value or a thrown error). *)

From stdpp Require Import gmap strings list.
From Stdlib Require Import ZArith Ascii.

Local Open Scope string_scope.

(** ** A small model of the JavaScript values the sources inspect *)

Module Js.

(** Object identity: the address of a heap-allocated object. *)
Definition ref := positive.

(** The error classes the sources construct.  [Error message] is the
    built-in [new Error(message)]; the other two are the subclasses of
    [SuperDnsLookupError] declared in the repository, with the public
    fields their constructors store. *)
Inductive error : Type :=
| Error (message : string)
| EmptyArrayError (emptyArray : ref)
| UnsupportedPlatform (platform : string).

(** How a call completes.  [ReturnUndefined] is what an out-of-range
    array read [array[i]] evaluates to: the [!] of TypeScript is erased
    at run time. *)
Inductive completion (A : Type) : Type :=
| Return (value : A)
| ReturnUndefined
| Throw (e : error).
Arguments Return {A} value.
Arguments ReturnUndefined {A}.
Arguments Throw {A} e.

(** An array is an object: an identity and its current elements. *)
Record Array (T : Type) : Type := mkArray {
  array_ref : ref;
  array_elems : list T
}.
Arguments mkArray {T} array_ref array_elems.
Arguments array_ref {T} a.
Arguments array_elems {T} a.

(** [array[i]] *)
Definition index {T : Type} (array : Array T) (i : nat) : completion T :=
  match array_elems array !! i with
  | Some x => Return x
  | None => ReturnUndefined
  end.

(** Values of type [unknown], as far as [typeof], [in] and property
    reads distinguish them.  An object or function is given by its
    properties, own and inherited, in lookup order. *)
#[warnings="-register-all"]
Inductive value : Type :=
| VUndefined
| VNull
| VBoolean (b : bool)
| VNumber (n : Z)
| VString (s : string)
| VSymbol (description : string)
| VBigInt (n : Z)
| VObject (properties : list (string * value))
| VFunction (properties : list (string * value)).

Definition typeof (v : value) : string :=
  match v with
  | VUndefined => "undefined"
  | VNull => "object"
  | VBoolean _ => "boolean"
  | VNumber _ => "number"
  | VString _ => "string"
  | VSymbol _ => "symbol"
  | VBigInt _ => "bigint"
  | VObject _ => "object"
  | VFunction _ => "function"
  end.

Fixpoint assoc (key : string) (properties : list (string * value)) : option value :=
  match properties with
  | [] => None
  | (k, v) :: rest => if String.eqb k key then Some v else assoc key rest
  end.

Definition properties_of (v : value) : list (string * value) :=
  match v with
  | VObject ps | VFunction ps => ps
  | _ => []
  end.

(** [key in v], for [v] an object. *)
Definition has_property (key : string) (v : value) : bool :=
  match assoc key (properties_of v) with
  | Some _ => true
  | None => false
  end.

(** [v.key]; a missing property reads as [undefined]. *)
Definition get (key : string) (v : value) : value :=
  match assoc key (properties_of v) with
  | Some x => x
  | None => VUndefined
  end.

(** Truthiness of a string: only the empty string is falsy. *)
Definition truthy_string (s : string) : bool :=
  match s with
  | EmptyString => false
  | String _ _ => true
  end.

(** [Array.prototype.includes] on an array of strings. *)
Fixpoint includes (array : list string) (x : string) : bool :=
  match array with
  | [] => false
  | y :: rest => if String.eqb y x then true else includes rest x
  end.

(** The string value of a single- or double-quoted string literal whose
    source text between the quotes is [src]: a backslash followed by one
    of [b f n r t v 0] is that control character, and a backslash
    followed by any other character that starts no hexadecimal, unicode
    or octal escape is that character itself (a NonEscapeCharacter).
    Literals with [\x], [\u] or a digit escape other than [\0] are not
    covered and give [None]. *)
Definition escape (c : ascii) : option ascii :=
  match c with
  | "b"%char => Some "008"%char
  | "t"%char => Some "009"%char
  | "n"%char => Some "010"%char
  | "v"%char => Some "011"%char
  | "f"%char => Some "012"%char
  | "r"%char => Some "013"%char
  | "0"%char => Some "000"%char
  | "x"%char | "u"%char
  | "1"%char | "2"%char | "3"%char | "4"%char | "5"%char
  | "6"%char | "7"%char | "8"%char | "9"%char => None
  | _ => Some c
  end.

Fixpoint string_literal (src : string) : option string :=
  match src with
  | EmptyString => Some EmptyString
  | String "\"%char EmptyString => None
  | String "\"%char (String c rest) =>
      match escape c, string_literal rest with
      | Some c', Some s => Some (String c' s)
      | _, _ => None
      end
  | String c rest =>
      match string_literal rest with
      | Some s => Some (String c s)
      | None => None
      end
  end.

End Js.

(** ** [lib/choice-strategy.ts] *)

Module ChoiceStrategy.
Import Js.

(** [protected choices = new WeakMap<unknown[], { index: number }>()]:
    keyed by the identity of the array.  The [{ index }] box of a key is
    reachable only through the map, so the map holds its field: the
    strategy's state is a [gmap ref nat].

    [RoundRobinChoiceStrategy#chooseOne] *)
Definition chooseOne {T : Type} (this : gmap ref nat) (array : Array T)
  : gmap ref nat * completion T :=
  if (List.length (array_elems array) =? 0)%nat then
    (this, Throw (EmptyArrayError (array_ref array)))
  else
    match this !! array_ref array with
    | None => (<[array_ref array := 0]> this, index array 0)
    | Some choice_index =>
        let choice_index := S choice_index in
        if (choice_index <? List.length (array_elems array))%nat then
          (<[array_ref array := choice_index]> this, index array choice_index)
        else
          (<[array_ref array := 0]> this, index array 0)
    end.

(** The strategy's state after the calls [chooseOne(a)] for [a] in
    [calls], in order (whatever each call returned or threw). *)
Fixpoint after {T : Type} (this : gmap ref nat) (calls : list (Array T))
  : gmap ref nat :=
  match calls with
  | [] => this
  | a :: rest => after (chooseOne this a).1 rest
  end.

(** How many of [calls] were made with the array instance [a]. *)
Definition seen {T : Type} (a : Array T) (calls : list (Array T)) : nat :=
  List.length (filter (λ b, array_ref b = array_ref a) calls).

(** What the WeakMap holds for an array of [n] elements that has been
    passed to [chooseOne] [k] times. *)
Definition cursor (n k : nat) : option nat :=
  match k with
  | O => None
  | S j => Some (j mod n)
  end.

(** What the calls [chooseOne(a)] for [a] in [calls], made in order,
    hand back one by one. *)
Fixpoint results {T : Type} (this : gmap ref nat) (calls : list (Array T))
  : list (completion T) :=
  match calls with
  | [] => []
  | a :: rest => (chooseOne this a).2 :: results (chooseOne this a).1 rest
  end.

(** The calls that pass the [array.length === 0] guard. *)
Definition accepted {T : Type} (calls : list (Array T)) : list (Array T) :=
  filter (λ a, array_elems a ≠ []) calls.

End ChoiceStrategy.

(** ** Constants of [node:dns] *)

Module NodeDns.

(** The error codes [node:dns] exports, with the values Node.js
    documents for them. *)
Definition CONNREFUSED : string := "ECONNREFUSED".
Definition NOTFOUND : string := "ENOTFOUND".
Definition REFUSED : string := "EREFUSED".
Definition SERVFAIL : string := "ESERVFAIL".
Definition TIMEOUT : string := "ETIMEOUT".

End NodeDns.

(** ** [lib/failover-strategy/failover-strategy.ts] *)

Module FailoverStrategy.
Import Js NodeDns.

(** [false | A] *)
Inductive or_false (A : Type) : Type :=
| JsFalse
| Object (a : A).
Arguments JsFalse {A}.
Arguments Object {A} a.

Record CacheInstruction : Type := { ttlMs : Z }.
Record ExpiredCacheInstruction : Type := { maxExpirationMs : Z }.

(** [interface FailoverStrategy] *)
Class FailoverStrategy (S : Type) : Type := {
  cacheResolverFailure : S → value → string → or_false CacheInstruction;
  useExpiredCache : S → value → string → or_false ExpiredCacheInstruction
}.

(** [interface UniversalFailoverStrategyOptions]: every property is
    optional; [None] is a property that is absent or [undefined].  The
    strategy only stores and hands back the two durations, so they are
    kept as integers. *)
Record UniversalFailoverStrategyOptions : Type := {
  opt_cacheErrorCodes : option (list string);
  opt_cacheErrorTtlMs : option Z;
  opt_cacheMaxExpirationMs : option Z;
  opt_useExpiredCacheOnErrorCodes : option (list string)
}.

(** The object literal [{}]. *)
Definition no_options : UniversalFailoverStrategyOptions :=
  {| opt_cacheErrorCodes := None;
     opt_cacheErrorTtlMs := None;
     opt_cacheMaxExpirationMs := None;
     opt_useExpiredCacheOnErrorCodes := None |}.

(** [class UniversalFailoverStrategy]: its four protected fields. *)
Record UniversalFailoverStrategy : Type := {
  cacheErrorCodes : list string;
  cacheErrorTtlMs : Z;
  cacheMaxExpirationMs : Z;
  useExpiredCacheOnErrorCodes : list string
}.

(** The constructor; [options = None] is a call without argument. *)
Definition constructor (options : option UniversalFailoverStrategyOptions)
  : UniversalFailoverStrategy :=
  let options := default no_options options in
  {| cacheErrorCodes :=
       default [CONNREFUSED; NOTFOUND; REFUSED; SERVFAIL; TIMEOUT]
               (opt_cacheErrorCodes options);
     cacheErrorTtlMs := default 1000%Z (opt_cacheErrorTtlMs options);
     cacheMaxExpirationMs := default 3600000%Z (opt_cacheMaxExpirationMs options);
     useExpiredCacheOnErrorCodes :=
       default [CONNREFUSED; NOTFOUND; REFUSED; SERVFAIL; TIMEOUT]
               (opt_useExpiredCacheOnErrorCodes options) |}.

Definition is_null (v : value) : bool :=
  match v with
  | VNull => true
  | _ => false
  end.

(** [UniversalFailoverStrategy#getErrorCode]; [None] is [undefined]. *)
Definition getErrorCode (error : value) : option string :=
  if String.eqb (typeof error) "object"
     && negb (is_null error)
     && has_property "code" error
     && String.eqb (typeof (get "code" error)) "string"
  then
    match get "code" error with
    | VString code => Some code
    | _ => None
    end
  else None.

(** [UniversalFailoverStrategy#cacheResolverFailure] *)
Definition universal_cacheResolverFailure
    (this : UniversalFailoverStrategy) (error : value)
  : or_false CacheInstruction :=
  match getErrorCode error with
  | Some code =>
      if truthy_string code && includes (cacheErrorCodes this) code
      then Object {| ttlMs := cacheErrorTtlMs this |}
      else JsFalse
  | None => JsFalse
  end.

(** [UniversalFailoverStrategy#useExpiredCache] *)
Definition universal_useExpiredCache
    (this : UniversalFailoverStrategy) (error : value)
  : or_false ExpiredCacheInstruction :=
  match getErrorCode error with
  | Some code =>
      if truthy_string code && includes (useExpiredCacheOnErrorCodes this) code
      then Object {| maxExpirationMs := cacheMaxExpirationMs this |}
      else JsFalse
  | None => JsFalse
  end.

(** [UniversalFailoverStrategy implements FailoverStrategy]: both
    methods declare the [error] parameter only, so the hostname the
    interface passes is dropped. *)
#[export] Instance universal : FailoverStrategy UniversalFailoverStrategy := {
  cacheResolverFailure this error _hostname := universal_cacheResolverFailure this error;
  useExpiredCache this error _hostname := universal_useExpiredCache this error
}.

(** What the test file's [createError(code)] builds, as far as the
    strategy looks: an [Error] object with an own [code] property. *)
Definition createError (code : option string) : value :=
  VObject [("code", match code with Some c => VString c | None => VUndefined end);
           ("message", VString "")].

(** The five default codes. *)
Definition default_codes : list string :=
  [CONNREFUSED; NOTFOUND; REFUSED; SERVFAIL; TIMEOUT].

End FailoverStrategy.

(** ** [UniversalHostsFileService] (in [lib/failover-strategy/failover-strategy.ts]) *)

Module HostsFileService.
Import Js.

(** [interface UniversalHostsFileServiceOptions] *)
Record UniversalHostsFileServiceOptions : Type := {
  opt_path : option string
}.

(** [class UniversalHostsFileService]: its protected field. *)
Record UniversalHostsFileService : Type := {
  path : string
}.

(** The source text between the quotes of the literal assigned on the
    ['win32'] branch of the constructor. *)
Definition win32_literal : string := "C:\Windows\System32\drivers\etc\hosts".

(** The value of a literal the escape model covers. *)
Definition cooked (src : string) : string := default "" (string_literal src).

(** [!path] for [path : string | undefined] *)
Definition falsy (path : option string) : bool :=
  match path with
  | Some p => negb (truthy_string p)
  | None => true
  end.

(** The constructor.  [platform] is what [os.platform()] returns in the
    running process; [options = None] is a call without argument. *)
Definition constructor (platform : string)
    (options : option UniversalHostsFileServiceOptions)
  : completion UniversalHostsFileService :=
  let path := opt_path (default {| opt_path := None |} options) in
  if falsy path then
    let platformName := platform in
    if String.eqb platformName "darwin" || String.eqb platformName "linux" then
      Return {| path := "/etc/hosts" |}
    else if String.eqb platformName "win32" then
      Return {| path := cooked win32_literal |}
    else
      Throw (UnsupportedPlatform platform)
  else
    Return {| path := default "" path |}.

(** The platforms the [switch] of the constructor has a case for. *)
Definition supported (platform : string) : bool :=
  String.eqb platform "darwin" || String.eqb platform "linux"
  || String.eqb platform "win32".

End HostsFileService.

(** ** [class LookupController] (in [lib/lookup-controller/lookup-result.ts]) *)

Module LookupController.
Import Js.

(** [interface LookupOptions]; [None] is an absent or [undefined]
    property.  [family] is a number or one of the strings ['IPv4'],
    ['IPv6']; [hints] is a bit mask of [node:dns] flags. *)
Record LookupOptions : Type := {
  all : option bool;
  family : option value;
  hints : option Z;
  order : option string;
  verbatim : option bool
}.

(** [type LookupResult<All>]: one address, or all of them. *)
Inductive LookupResult : Type :=
| Address (address : string)
| Addresses (addresses : list string).

(** [interface LookupCallback]: a function object, known by identity. *)
Definition LookupCallback := ref.

(** The second parameter of the implementation signature. *)
Inductive OptionsOrCallback : Type :=
| Options (options : LookupOptions)
| Callback (callback : LookupCallback).

(** The state in which a call hands back its promise. *)
Inductive Promise (A : Type) : Type :=
| Pending
| Fulfilled (result : A)
| Rejected (reason : error).
Arguments Pending {A}.
Arguments Fulfilled {A} result.
Arguments Rejected {A} reason.

(** What [lookup] hands back when it returns: a promise (promise
    style) or nothing (callback style). *)
Inductive Returned : Type :=
| APromise (p : Promise LookupResult)
| Void.

(** [interface ResolvedAddress] (resolver service): an address and its
    TTL in seconds. *)
Record ResolvedAddress : Type := {
  address : string;
  ttl : Z
}.

(** What a call can do to the outside: call [chooseOne] of the choice
    strategy, [resolve4] or [resolve6] of the resolver service, or the
    user's callback. *)
Inductive effect : Type :=
| ChooseOne (array : Array ResolvedAddress)
| Resolve4 (hostname : string)
| Resolve6 (hostname : string)
| CallBack (callback : LookupCallback) (err : option error) (result : option LookupResult).

Definition is_resolver_call (e : effect) : bool :=
  match e with
  | Resolve4 _ | Resolve6 _ => true
  | _ => false
  end.

Definition resolver_calls (effects : list effect) : nat :=
  List.length (List.filter is_resolver_call effects).

Section Controller.

(** The eight collaborators are interfaces; the controller is generic in
    what implements them. *)
Context {CacheService ChoiceStrategy FailoverStrategy HostsFileService
         IsIpService PersistentStorageService ResolverService
         ThrottlingStrategy : Type}.

Record LookupController : Type := {
  cacheService : CacheService;
  choiceStrategy : ChoiceStrategy;
  failoverStrategy : FailoverStrategy;
  hostsFileService : HostsFileService;
  isIpService : IsIpService;
  persistentStorageService : option PersistentStorageService;
  resolverService : ResolverService;
  throttlingStrategy : option ThrottlingStrategy
}.

(** [LookupController#lookup], the implementation signature.  The
    method is not [async]: its body is the single statement
    [throw new Error('Method not implemented.')], so the call throws to
    its caller before it touches a collaborator, returns a promise or
    calls a callback. *)
Definition lookup (this : LookupController) (hostname : string)
    (optionsOrCallback : option OptionsOrCallback)
    (maybeCallback : option LookupCallback)
  : list effect * completion Returned :=
  ([], Throw (Error "Method not implemented.")).

(** One call of [lookup], by its arguments. *)
Record request : Type := {
  req_hostname : string;
  req_optionsOrCallback : option OptionsOrCallback;
  req_maybeCallback : option LookupCallback
}.

(** Calls issued one after the other on the same controller.  A call
    runs to completion before the next one starts (it never awaits), so
    calls issued "concurrently" from one turn of the event loop are such
    a sequence. *)
Fixpoint lookups (this : LookupController) (requests : list request)
  : list effect * list (completion Returned) :=
  match requests with
  | [] => ([], [])
  | r :: rest =>
      let '(effects, outcome) :=
        lookup this (req_hostname r) (req_optionsOrCallback r) (req_maybeCallback r) in
      let '(effects', outcomes) := lookups this rest in
      ((effects ++ effects')%list, outcome :: outcomes)
  end.

(** [EmptyArrayError] reaches the caller of a call: thrown, as the
    rejection of the returned promise, or as the callback's error. *)
Definition surfaces_EmptyArrayError (run : list effect * completion Returned) : Prop :=
  (∃ a, run.2 = Throw (EmptyArrayError a))
  ∨ (∃ a, run.2 = Return (APromise (Rejected (EmptyArrayError a))))
  ∨ (∃ callback a result,
        CallBack callback (Some (EmptyArrayError a)) result ∈ run.1).

End Controller.

Arguments LookupController : clear implicits.

(** The options of a lookup for IPv6 with the given hints. *)
Definition family6 (hints : Z) : LookupOptions :=
  {| all := None; family := Some (VNumber 6); hints := Some hints;
     order := None; verbatim := None |}.

(** [n] lookups of the same hostname issued together: default options,
    promise style. *)
Definition simultaneous (n : nat) (hostname : string) : list request :=
  replicate n {| req_hostname := hostname; req_optionsOrCallback := None;
                 req_maybeCallback := None |}.

End LookupController.

(** ** The constructor of [LookupController] and the defaults it builds *)

Module Construction.
Import Js LookupController.

(** A collaborator of the controller: the implementation the library
    builds by default, or the one the caller supplied. *)
Inductive collaborator (Default Supplied : Type) : Type :=
| Builtin (d : Default)
| Given (s : Supplied).
Arguments Builtin {Default Supplied} d.
Arguments Given {Default Supplied} s.

(** An optional property whose type admits [null]. *)
Inductive nullable (A : Type) : Type :=
| Undefined
| Null
| Value (a : A).
Arguments Undefined {A}.
Arguments Null {A}.
Arguments Value {A} a.

(** [new LRUCacheService()]: an empty [LRUCache] bounded by
    [maxHostnames = 1000]; only the bound is kept. *)
Record LRUCacheService : Type := { lru_max : Z }.
Definition LRUCacheService_default : LRUCacheService := {| lru_max := 1000 |}.

(** [new NodeIsIpService()], [new NodeResolverService()] and
    [new UniversalThrottlingStrategy()] hold no state: each is known by
    its class. *)
Inductive NodeIsIpService : Type := NodeIsIpService_new.
Inductive NodeResolverService : Type := NodeResolverService_new.
Inductive UniversalThrottlingStrategy : Type := UniversalThrottlingStrategy_new.

(** A controller over built-in or supplied collaborators. *)
Abbreviation Controller Cache Choice Failover Hosts IsIp Storage Resolver Throttling :=
  (LookupController
     (collaborator LRUCacheService Cache)
     (collaborator (gmap ref nat) Choice)
     (collaborator FailoverStrategy.UniversalFailoverStrategy Failover)
     (collaborator HostsFileService.UniversalHostsFileService Hosts)
     (collaborator NodeIsIpService IsIp)
     (collaborator Empty_set Storage)
     (collaborator NodeResolverService Resolver)
     (collaborator UniversalThrottlingStrategy Throttling)).

Section Constructor.

(** The implementations a caller may supply. *)
Context {Cache Choice Failover Hosts IsIp Storage Resolver Throttling : Type}.

(** [interface LookupControllerOptions] *)
Record LookupControllerOptions : Type := {
  opt_cacheService : option Cache;
  opt_choiceStrategy : option Choice;
  opt_failoverStrategy : option Failover;
  opt_hostsFileService : option Hosts;
  opt_isIpService : option IsIp;
  opt_persistentStorageService : nullable Storage;
  opt_resolverService : option Resolver;
  opt_throttlingStrategy : nullable Throttling
}.

(** The object literal [{}]. *)
Definition no_options : LookupControllerOptions :=
  {| opt_cacheService := None;
     opt_choiceStrategy := None;
     opt_failoverStrategy := None;
     opt_hostsFileService := None;
     opt_isIpService := None;
     opt_persistentStorageService := Undefined;
     opt_resolverService := None;
     opt_throttlingStrategy := Undefined |}.

(** A destructuring default [x = d]: [d] is used when the property is
    [undefined]. *)
Definition or_default {D S : Type} (d : D) (given : option S) : collaborator D S :=
  match given with
  | Some s => Given s
  | None => Builtin d
  end.

(** A destructuring default for a property that may be [null]: [null]
    is kept, only [undefined] takes the default. *)
Definition or_default_nullable {D S : Type} (d : option (collaborator D S))
    (given : nullable S) : option (collaborator D S) :=
  match given with
  | Undefined => d
  | Null => None
  | Value s => Some (Given s)
  end.


(** [new LookupController(options)].  [platform] is what [os.platform()]
    returns; [options = None] is a call without argument.  The defaults
    are evaluated in the order of the destructuring pattern, each only
    when its property is [undefined]; the one that can throw is
    [new UniversalHostsFileService()]. *)
Definition constructor (platform : string) (options : option LookupControllerOptions)
  : completion (Controller Cache Choice Failover Hosts IsIp Storage Resolver
                  Throttling) :=
  let options := default no_options options in
  let cacheService := or_default LRUCacheService_default (opt_cacheService options) in
  let choiceStrategy := or_default (∅ : gmap ref nat) (opt_choiceStrategy options) in
  let failoverStrategy :=
    or_default (FailoverStrategy.constructor None) (opt_failoverStrategy options) in
  match
    match opt_hostsFileService options with
    | Some s => Return (Given s)
    | None =>
        match HostsFileService.constructor platform None with
        | Return d => Return (Builtin d)
        | ReturnUndefined => ReturnUndefined
        | Throw e => Throw e
        end
    end
  with
  | Return hostsFileService =>
      let isIpService := or_default NodeIsIpService_new (opt_isIpService options) in
      let persistentStorageService :=
        or_default_nullable None (opt_persistentStorageService options) in
      let resolverService :=
        or_default NodeResolverService_new (opt_resolverService options) in
      let throttlingStrategy :=
        or_default_nullable (Some (Builtin UniversalThrottlingStrategy_new))
                            (opt_throttlingStrategy options) in
      Return {| cacheService := cacheService;
                choiceStrategy := choiceStrategy;
                failoverStrategy := failoverStrategy;
                hostsFileService := hostsFileService;
                isIpService := isIpService;
                persistentStorageService := persistentStorageService;
                resolverService := resolverService;
                throttlingStrategy := throttlingStrategy |}
  | ReturnUndefined => ReturnUndefined
  | Throw e => Throw e
  end.

End Constructor.

Arguments LookupControllerOptions : clear implicits.

End Construction.

(** * Properties *)

(** ** Round-robin choice *)

Module ChoiceStrategyProofs.
Import Js ChoiceStrategy.

Lemma succ_mod (k n : nat) :
  0 < n → S k mod n = if (S (k mod n) <? n)%nat then S (k mod n) else 0.
Proof.
  intros Hn.
  pose proof (Nat.div_mod_eq k n) as Hk.
  pose proof (Nat.mod_upper_bound k n ltac:(lia)) as Hr.
  destruct (Nat.ltb_spec (S (k mod n)) n) as [Hlt | Hge]; symmetry.
  - apply (Nat.mod_unique (S k) n (k / n)); lia.
  - apply (Nat.mod_unique (S k) n (S (k / n))); lia.
Qed.

Lemma index_mod_Some {T : Type} (a : Array T) (k : nat) :
  array_elems a ≠ [] →
  ∃ x, array_elems a !! (k mod List.length (array_elems a)) = Some x.
Proof.
  intros Hne. apply lookup_lt_is_Some_2, Nat.mod_upper_bound.
  destruct (array_elems a); [done | simpl; lia].
Qed.

(** One call on a non-empty array whose counter stands at [k]. *)
Lemma chooseOne_cursor {T : Type} (this : gmap ref nat) (a : Array T) (k : nat) :
  array_elems a ≠ [] →
  this !! array_ref a = cursor (List.length (array_elems a)) k →
  chooseOne this a =
    (<[array_ref a := k mod List.length (array_elems a)]> this,
     index a (k mod List.length (array_elems a))).
Proof.
  intros Hne Hcur. unfold chooseOne.
  assert (0 < List.length (array_elems a)) as Hn
    by (destruct (array_elems a); [done | simpl; lia]).
  destruct (Nat.eqb_spec (List.length (array_elems a)) 0) as [H0 | _]; [lia |].
  rewrite Hcur. destruct k as [| j]; simpl.
  - by rewrite Nat.Div0.mod_0_l.
  - rewrite (succ_mod j _ Hn). by case_match.
Qed.

(** A call with another array instance leaves the counter of [a] alone. *)
Lemma chooseOne_other {T : Type} (this : gmap ref nat) (a b : Array T) :
  array_ref b ≠ array_ref a →
  (chooseOne this b).1 !! array_ref a = this !! array_ref a.
Proof.
  intros Hne. unfold chooseOne.
  repeat case_match; simpl; by rewrite ?lookup_insert_ne.
Qed.

(** The counter of [a] after any interleaving of calls, provided the
    calls made with the instance [a] saw the same elements. *)
Lemma after_cursor {T : Type} (a : Array T) (calls : list (Array T)) :
  array_elems a ≠ [] →
  (∀ b, b ∈ calls → array_ref b = array_ref a → array_elems b = array_elems a) →
  ∀ (this : gmap ref nat) (k : nat),
    this !! array_ref a = cursor (List.length (array_elems a)) k →
    after this calls !! array_ref a
      = cursor (List.length (array_elems a)) (k + seen a calls).
Proof.
  intros Hne. induction calls as [| b calls IH]; intros Hsame this k Hcur.
  - simpl. by rewrite Nat.add_0_r.
  - assert (∀ c, c ∈ calls → array_ref c = array_ref a →
                 array_elems c = array_elems a) as Hsame'
      by (intros c Hc; apply Hsame; by right).
    simpl. unfold seen. rewrite filter_cons.
    destruct (decide (array_ref b = array_ref a)) as [Heq | Hneq].
    + assert (array_elems b = array_elems a) as Hel by (apply Hsame; [by left | done]).
      rewrite (chooseOne_cursor this b k) by (rewrite ?Hel, ?Heq; done).
      simpl. rewrite Heq, Hel.
      rewrite (IH Hsame' _ (S k)); [| by rewrite lookup_insert_eq].
      fold (seen a calls). f_equal. lia.
    + rewrite (IH Hsame' _ k); [done |].
      by rewrite chooseOne_other.
Qed.

Lemma seen_replicate {T : Type} (a : Array T) (i : nat) :
  seen a (replicate i a) = i.
Proof.
  unfold seen. induction i as [| i IH]; [done |].
  simpl. rewrite filter_cons. rewrite decide_True by done. simpl. by rewrite IH.
Qed.

Lemma mem_replicate {T : Type} (a b : Array T) (i : nat) :
  b ∈ replicate i a → b = a.
Proof. intros H. by apply elem_of_replicate in H as [-> _]. Qed.

(** Round-robin under interleaving: on a strategy that has not seen the
    instance [a], after any sequence [calls] of calls in which [a] kept
    its elements, the next call with [a] returns the element at position
    [seen a calls mod n]. *)
Theorem chooseOne_round_robin_interleaved {T : Type}
    (this : gmap ref nat) (a : Array T) (calls : list (Array T)) :
  array_elems a ≠ [] →
  this !! array_ref a = None →
  (∀ b, b ∈ calls → array_ref b = array_ref a → array_elems b = array_elems a) →
  ∃ x, array_elems a !! (seen a calls mod List.length (array_elems a)) = Some x
       ∧ (chooseOne (after this calls) a).2 = Return x.
Proof.
  intros Hne Hfresh Hsame.
  destruct (index_mod_Some a (seen a calls) Hne) as [x Hx].
  exists x. split; [done |].
  rewrite (chooseOne_cursor _ a (seen a calls) Hne).
  - simpl. unfold index. by rewrite Hx.
  - by rewrite (after_cursor a calls Hne Hsame this 0 Hfresh).
Qed.

(** C1. For a non-empty array instance [a] of [n] elements and a strategy
    that has not yet been called with it, the [i]-th call of
    [chooseOne(a)] ([i] = 0, 1, 2, ...) returns [a[i mod n]]: element 0
    first, then the next element on each call, wrapping back to
    element 0 after the last. *)
Theorem chooseOne_round_robin {T : Type}
    (this : gmap ref nat) (a : Array T) (i : nat) :
  array_elems a ≠ [] →
  this !! array_ref a = None →
  ∃ x, array_elems a !! (i mod List.length (array_elems a)) = Some x
       ∧ (chooseOne (after this (replicate i a)) a).2 = Return x.
Proof.
  intros Hne Hfresh.
  destruct (index_mod_Some a i Hne) as [x Hx].
  exists x. split; [done |].
  rewrite (chooseOne_cursor _ a i Hne).
  - simpl. unfold index. by rewrite Hx.
  - rewrite (after_cursor a (replicate i a) Hne) with (k := 0); [| | done].
    + by rewrite seen_replicate.
    + by intros b ->%mem_replicate.
Qed.

Lemma chooseOne_round_robin_witness :
  ∃ x, ["a"; "b"; "c"] !! (4 mod 3) = Some x
       ∧ (chooseOne (after ∅ (replicate 4 (mkArray 1%positive ["a"; "b"; "c"])))
                    (mkArray 1%positive ["a"; "b"; "c"])).2 = Return x.
Proof.
  apply (chooseOne_round_robin ∅ (mkArray 1%positive ["a"; "b"; "c"]) 4).
  - simpl. discriminate.
  - reflexivity.
Defined.

(** C5. [chooseOne] throws exactly when the array has no elements, the
    error thrown is [EmptyArrayError] holding that array, and for every
    non-empty array it returns one of the array's elements, whatever the
    strategy has recorded before. *)
Theorem chooseOne_throws_iff_empty {T : Type}
    (this : gmap ref nat) (array : Array T) :
  ((∃ e, (chooseOne this array).2 = Throw e) ↔ array_elems array = [])
  ∧ ((chooseOne this array).2 = Throw (EmptyArrayError (array_ref array))
     ↔ array_elems array = [])
  ∧ (array_elems array ≠ [] →
     ∃ x, x ∈ array_elems array ∧ (chooseOne this array).2 = Return x).
Proof.
  assert (array_elems array ≠ [] →
          ∃ x, x ∈ array_elems array ∧ (chooseOne this array).2 = Return x)
    as Hreturns.
  { intros Hne. unfold chooseOne.
    destruct (array_elems array) as [| first rest] eqn:Hel; [done |].
    assert (∀ j, (j <? List.length (first :: rest))%nat = true →
                 ∃ x, x ∈ first :: rest ∧ index array j = Return x) as Hidx.
    { intros j Hj%Nat.ltb_lt. unfold index. rewrite Hel.
      destruct (lookup_lt_is_Some_2 (first :: rest) j Hj) as [x Hx].
      exists x. rewrite Hx. split; [by eapply list_elem_of_lookup_2 | done]. }
    simpl (List.length _ =? 0)%nat. cbv iota.
    destruct (this !! array_ref array) as [choice_index |]; simpl.
    - destruct (S choice_index <? S (List.length rest))%nat eqn:Hlt; simpl.
      + by apply Hidx.
      + by apply Hidx.
    - by apply Hidx. }
  assert (array_elems array = [] →
          (chooseOne this array).2 = Throw (EmptyArrayError (array_ref array)))
    as Hthrows.
  { intros Hel. unfold chooseOne. by rewrite Hel. }
  split; [| split]; [| | done].
  - split.
    + intros [e He]. destruct (array_elems array) eqn:Hel; [done |].
      destruct Hreturns as (x & _ & Hx); [done |]. congruence.
    + intros Hel. eexists. by apply Hthrows.
  - split; [| done].
    intros He. destruct (array_elems array) eqn:Hel; [done |].
    destruct Hreturns as (x & _ & Hx); [done |]. congruence.
Qed.

End ChoiceStrategyProofs.

(** ** Failover decisions *)

Module FailoverStrategyProofs.
Import Js NodeDns FailoverStrategy.

Lemma includes_elem_of (array : list string) (x : string) :
  includes array x = true ↔ x ∈ array.
Proof.
  induction array as [| y rest IH]; simpl.
  - split; [done | by intros ?%elem_of_nil].
  - rewrite elem_of_cons. destruct (String.eqb_spec y x) as [-> | Hne].
    + split; [by left | done].
    + rewrite IH. split; [by right | by intros [-> | ?]].
Qed.

Lemma includes_not_elem_of (array : list string) (x : string) :
  includes array x = false ↔ x ∉ array.
Proof. rewrite <- includes_elem_of. by destruct (includes array x). Qed.

Lemma truthy_string_nonempty (s : string) :
  truthy_string s = true ↔ s ≠ "".
Proof. by destruct s. Qed.

(** An object with a textual [code] property yields that code. *)
Lemma getErrorCode_textual (properties : list (string * value)) (code : string) :
  assoc "code" properties = Some (VString code) →
  getErrorCode (VObject properties) = Some code.
Proof.
  intros Hcode. unfold getErrorCode, has_property, get. simpl.
  by rewrite Hcode.
Qed.

(** Anything else yields [undefined]. *)
Lemma getErrorCode_unknown (error : value) :
  typeof error ≠ "object"
  ∨ error = VNull
  ∨ has_property "code" error = false
  ∨ typeof (get "code" error) ≠ "string" →
  getErrorCode error = None.
Proof.
  unfold getErrorCode.
  intros [Htype | [-> | [Hprop | Hcode]]].
  - apply String.eqb_neq in Htype. by rewrite Htype.
  - done.
  - rewrite Hprop. by rewrite andb_false_r.
  - apply String.eqb_neq in Hcode. rewrite Hcode. by rewrite andb_false_r.
Qed.

(** Both methods, on an error object with a textual [code]. *)
Lemma cacheResolverFailure_textual
    (this : UniversalFailoverStrategy)
    (properties : list (string * value)) (code hostname : string) :
  assoc "code" properties = Some (VString code) →
  cacheResolverFailure this (VObject properties) hostname
    = if truthy_string code && includes (cacheErrorCodes this) code
      then Object {| ttlMs := cacheErrorTtlMs this |}
      else JsFalse.
Proof.
  intros Hcode%getErrorCode_textual.
  unfold cacheResolverFailure, universal, universal_cacheResolverFailure.
  by rewrite Hcode.
Qed.

Lemma useExpiredCache_textual
    (this : UniversalFailoverStrategy)
    (properties : list (string * value)) (code hostname : string) :
  assoc "code" properties = Some (VString code) →
  useExpiredCache this (VObject properties) hostname
    = if truthy_string code && includes (useExpiredCacheOnErrorCodes this) code
      then Object {| maxExpirationMs := cacheMaxExpirationMs this |}
      else JsFalse.
Proof.
  intros Hcode%getErrorCode_textual.
  unfold useExpiredCache, universal, universal_useExpiredCache.
  by rewrite Hcode.
Qed.

(** None of the five default codes is the empty string. *)
Lemma default_codes_truthy (code : string) :
  code ∈ default_codes → truthy_string code = true.
Proof.
  intros Hin%includes_elem_of.
  destruct code; [by vm_compute in Hin | done].
Qed.

Ltac by_code H :=
  unfold cacheResolverFailure, useExpiredCache, universal,
         universal_cacheResolverFailure, universal_useExpiredCache;
  rewrite H.

(** C2. With no constructor options, [cacheResolverFailure] answers
    [{ ttlMs: 1000 }] for an error object whose [code] is one of
    CONNREFUSED, NOTFOUND, REFUSED, SERVFAIL, TIMEOUT, and [false] for an
    error object whose [code] is a non-empty string outside that set. *)
Theorem default_cacheResolverFailure
    (properties : list (string * value)) (code hostname : string) :
  assoc "code" properties = Some (VString code) →
  (code ∈ [CONNREFUSED; NOTFOUND; REFUSED; SERVFAIL; TIMEOUT] →
   cacheResolverFailure (constructor None) (VObject properties) hostname
     = Object {| ttlMs := 1000 |})
  ∧ (code ≠ "" →
     code ∉ [CONNREFUSED; NOTFOUND; REFUSED; SERVFAIL; TIMEOUT] →
     cacheResolverFailure (constructor None) (VObject properties) hostname
       = JsFalse).
Proof.
  intros Hcode. rewrite (cacheResolverFailure_textual _ _ _ _ Hcode).
  change (cacheErrorCodes (constructor None)) with default_codes.
  unfold default_codes. split.
  - intros Hin. rewrite (default_codes_truthy _ Hin).
    apply includes_elem_of in Hin. by rewrite Hin.
  - intros _ Hout%includes_not_elem_of. rewrite Hout.
    by rewrite andb_false_r.
Qed.

Lemma default_cacheResolverFailure_witness :
  (TIMEOUT ∈ [CONNREFUSED; NOTFOUND; REFUSED; SERVFAIL; TIMEOUT] →
   cacheResolverFailure (constructor None)
       (VObject [("code", VString TIMEOUT); ("message", VString "")]) "example.com"
     = Object {| ttlMs := 1000 |})
  ∧ (TIMEOUT ≠ "" →
     TIMEOUT ∉ [CONNREFUSED; NOTFOUND; REFUSED; SERVFAIL; TIMEOUT] →
     cacheResolverFailure (constructor None)
         (VObject [("code", VString TIMEOUT); ("message", VString "")]) "example.com"
       = JsFalse).
Proof.
  apply (default_cacheResolverFailure
           [("code", VString TIMEOUT); ("message", VString "")] TIMEOUT "example.com").
  reflexivity.
Defined.

(** C3. With no constructor options, [useExpiredCache] answers
    [{ maxExpirationMs: 3600000 }] (one hour) for an error object whose
    [code] is one of CONNREFUSED, NOTFOUND, REFUSED, SERVFAIL, TIMEOUT,
    and [false] for an error object whose [code] is a non-empty string
    outside that set. *)
Theorem default_useExpiredCache
    (properties : list (string * value)) (code hostname : string) :
  assoc "code" properties = Some (VString code) →
  (code ∈ [CONNREFUSED; NOTFOUND; REFUSED; SERVFAIL; TIMEOUT] →
   useExpiredCache (constructor None) (VObject properties) hostname
     = Object {| maxExpirationMs := 3600000 |})
  ∧ (code ≠ "" →
     code ∉ [CONNREFUSED; NOTFOUND; REFUSED; SERVFAIL; TIMEOUT] →
     useExpiredCache (constructor None) (VObject properties) hostname
       = JsFalse).
Proof.
  intros Hcode. rewrite (useExpiredCache_textual _ _ _ _ Hcode).
  change (useExpiredCacheOnErrorCodes (constructor None)) with default_codes.
  unfold default_codes. split.
  - intros Hin. rewrite (default_codes_truthy _ Hin).
    apply includes_elem_of in Hin. by rewrite Hin.
  - intros _ Hout%includes_not_elem_of. rewrite Hout.
    by rewrite andb_false_r.
Qed.

Lemma default_useExpiredCache_witness :
  (SERVFAIL ∈ [CONNREFUSED; NOTFOUND; REFUSED; SERVFAIL; TIMEOUT] →
   useExpiredCache (constructor None)
       (VObject [("code", VString SERVFAIL)]) "example.com"
     = Object {| maxExpirationMs := 3600000 |})
  ∧ (SERVFAIL ≠ "" →
     SERVFAIL ∉ [CONNREFUSED; NOTFOUND; REFUSED; SERVFAIL; TIMEOUT] →
     useExpiredCache (constructor None)
         (VObject [("code", VString SERVFAIL)]) "example.com"
       = JsFalse).
Proof.
  apply (default_useExpiredCache [("code", VString SERVFAIL)] SERVFAIL "example.com").
  reflexivity.
Defined.

(** C4. Whatever the constructor options, an [error] that is not an
    object, is [null], has no [code] property, or has a [code] that is
    not a string makes both [cacheResolverFailure] and [useExpiredCache]
    answer [false]. *)
Theorem unknown_error_false
    (options : option UniversalFailoverStrategyOptions)
    (error : value) (hostname : string) :
  typeof error ≠ "object"
  ∨ error = VNull
  ∨ has_property "code" error = false
  ∨ typeof (get "code" error) ≠ "string" →
  cacheResolverFailure (constructor options) error hostname = JsFalse
  ∧ useExpiredCache (constructor options) error hostname = JsFalse.
Proof.
  intros Hcode%getErrorCode_unknown. split; by by_code Hcode.
Qed.

Lemma unknown_error_false_witness :
  cacheResolverFailure
      (constructor (Some {| opt_cacheErrorCodes := Some ["undefined"];
                            opt_cacheErrorTtlMs := Some 5000%Z;
                            opt_cacheMaxExpirationMs := None;
                            opt_useExpiredCacheOnErrorCodes := Some ["undefined"] |}))
      (createError None) "example.com" = JsFalse
  ∧ useExpiredCache
      (constructor (Some {| opt_cacheErrorCodes := Some ["undefined"];
                            opt_cacheErrorTtlMs := Some 5000%Z;
                            opt_cacheMaxExpirationMs := None;
                            opt_useExpiredCacheOnErrorCodes := Some ["undefined"] |}))
      (createError None) "example.com" = JsFalse.
Proof.
  apply unknown_error_false.
  right. right. right. simpl. discriminate.
Defined.

(** C10. Whatever the constructor options, an error object whose [code]
    is the empty string makes both methods answer [false], also when
    the empty string is listed in [cacheErrorCodes] or
    [useExpiredCacheOnErrorCodes]: the truthiness test on the code comes
    before the membership test. *)
Theorem empty_code_false
    (options : option UniversalFailoverStrategyOptions)
    (properties : list (string * value)) (hostname : string) :
  assoc "code" properties = Some (VString "") →
  cacheResolverFailure (constructor options) (VObject properties) hostname = JsFalse
  ∧ useExpiredCache (constructor options) (VObject properties) hostname = JsFalse.
Proof.
  intros Hcode%getErrorCode_textual. split; by by_code Hcode.
Qed.

Lemma empty_code_false_witness :
  cacheResolverFailure
      (constructor (Some {| opt_cacheErrorCodes := Some [""; TIMEOUT];
                            opt_cacheErrorTtlMs := None;
                            opt_cacheMaxExpirationMs := None;
                            opt_useExpiredCacheOnErrorCodes := Some [""] |}))
      (VObject [("code", VString "")]) "example.com" = JsFalse
  ∧ useExpiredCache
      (constructor (Some {| opt_cacheErrorCodes := Some [""; TIMEOUT];
                            opt_cacheErrorTtlMs := None;
                            opt_cacheMaxExpirationMs := None;
                            opt_useExpiredCacheOnErrorCodes := Some [""] |}))
      (VObject [("code", VString "")]) "example.com" = JsFalse.
Proof.
  apply empty_code_false. reflexivity.
Defined.

End FailoverStrategyProofs.

(** ** Default hosts file path *)

Module HostsFileServiceProofs.
Import Js HostsFileService.

Lemma win32_literal_value :
  string_literal win32_literal = Some "C:WindowsSystem32driversetchosts".
Proof. reflexivity. Qed.

(** A literal without backslash is its own value. *)
Lemma string_literal_plain (src : string) :
  (∀ c, c ∈ String.list_ascii_of_string src → c ≠ "\"%char) →
  string_literal src = Some src.
Proof.
  induction src as [| c rest IH]; intros Hplain; [done |].
  assert (c ≠ "\"%char) as Hc by (apply Hplain; simpl; by left).
  assert (string_literal rest = Some rest) as Hrest.
  { apply IH. intros d Hd. apply Hplain. simpl. by right. }
  simpl. rewrite Hrest.
  destruct c as [[] [] [] [] [] [] [] []]; try done.
  all: destruct rest; done.
Qed.

(** The parts of the default-path rule the constructor does follow. *)
Lemma constructor_unix (platform : string) :
  platform = "linux" ∨ platform = "darwin" →
  constructor platform None = Return {| path := "/etc/hosts" |}.
Proof. by intros [-> | ->]. Qed.

Lemma constructor_unsupported (platform : string) :
  platform ≠ "linux" → platform ≠ "darwin" → platform ≠ "win32" →
  constructor platform None = Throw (UnsupportedPlatform platform).
Proof.
  intros Hl%String.eqb_neq Hd%String.eqb_neq Hw%String.eqb_neq.
  unfold constructor. simpl. by rewrite Hl, Hd, Hw.
Qed.

Lemma constructor_explicit (platform p : string) :
  p ≠ "" →
  constructor platform (Some {| opt_path := Some p |}) = Return {| path := p |}.
Proof. intros Hp. by destruct p. Qed.

(** C7 (where the constructor departs from it). On win32, without a
    [path] option, the constructor stores the literal's value, in which
    every backslash has been consumed as an escape: it is
    [C:WindowsSystem32driversetchosts], not the Windows hosts path. *)
Theorem constructor_win32 :
  constructor "win32" None = Return {| path := "C:WindowsSystem32driversetchosts" |}
  ∧ constructor "win32" None
    ≠ Return {| path := "C:\Windows\System32\drivers\etc\hosts" |}.
Proof. split; [reflexivity | discriminate]. Qed.

End HostsFileServiceProofs.

(** ** The lookup method *)

Module LookupControllerProofs.
Import Js LookupController.

Section Lookup.

Context {CacheService ChoiceStrategy FailoverStrategy HostsFileService
         IsIpService PersistentStorageService ResolverService
         ThrottlingStrategy : Type}.

Local Abbreviation Controller :=
  (LookupController CacheService ChoiceStrategy FailoverStrategy
     HostsFileService IsIpService PersistentStorageService ResolverService
     ThrottlingStrategy).

Lemma lookup_throws (this : Controller) (hostname : string)
    (optionsOrCallback : option OptionsOrCallback)
    (maybeCallback : option LookupCallback) :
  lookup this hostname optionsOrCallback maybeCallback
    = ([], Throw (Error "Method not implemented.")).
Proof. reflexivity. Qed.

Lemma lookups_throw (this : Controller) (requests : list request) :
  lookups this requests
    = ([], List.map (λ _, Throw (Error "Method not implemented.")) requests).
Proof.
  induction requests as [| r rest IH]; [done |].
  simpl. by rewrite IH.
Qed.

(** C6. Whatever the hostname, the options and the callback, no
    [EmptyArrayError] reaches the caller of [lookup] (neither thrown,
    nor as a rejection, nor as the callback's error), and every call of
    [chooseOne] the controller makes is with a non-empty array. *)
Theorem lookup_never_surfaces_EmptyArrayError (this : Controller)
    (hostname : string) (optionsOrCallback : option OptionsOrCallback)
    (maybeCallback : option LookupCallback) :
  ¬ surfaces_EmptyArrayError (lookup this hostname optionsOrCallback maybeCallback)
  ∧ (∀ array,
       ChooseOne array ∈ (lookup this hostname optionsOrCallback maybeCallback).1 →
       array_elems array ≠ []).
Proof.
  rewrite lookup_throws. split.
  - intros [[a Ha] | [[a Ha] | (callback & a & result & Hin)]]; simpl in *.
    + discriminate Ha.
    + discriminate Ha.
    + by apply elem_of_nil in Hin.
  - intros array Hin. by apply elem_of_nil in Hin.
Qed.

(** C8 (where the code departs from it). For any hostname, an IPv4
    literal included, with family 6 and the V4MAPPED hint (whatever
    value [dns.V4MAPPED] has on the platform), [lookup] throws
    [Error('Method not implemented.')]; so [lookup("1.2.3.4", ...)]
    neither returns a promise fulfilled with ["::ffff:1.2.3.4"] nor
    calls back with it. *)
Theorem lookup_v4mapped_not_implemented
    (this : Controller) (V4MAPPED : Z) (hostname : string) :
  lookup this hostname (Some (Options (family6 V4MAPPED))) None
    = ([], Throw (Error "Method not implemented."))
  ∧ (lookup this "1.2.3.4" (Some (Options (family6 V4MAPPED))) None).2
    ≠ Return (APromise (Fulfilled (Address "::ffff:1.2.3.4")))
  ∧ (∀ callback err,
       CallBack callback err (Some (Address "::ffff:1.2.3.4"))
       ∉ (lookup this "1.2.3.4" (Some (Options (family6 V4MAPPED))) None).1).
Proof.
  split; [reflexivity |]. split; [discriminate |].
  intros callback err Hin. by apply elem_of_nil in Hin.
Qed.

(** C9 (where the code departs from it). However many lookups are
    issued, for whatever hostnames, the controller issues no resolver
    call at all and every caller gets [Error('Method not implemented.')]
    thrown at it; in particular a hundred lookups of ["ex.com"] issued
    together on a controller that has nothing cached make zero calls of
    [resolve4]/[resolve6], not one, and no caller observes a success. *)
Theorem lookups_issue_no_resolver_call (this : Controller) (requests : list request) :
  resolver_calls (lookups this requests).1 = 0
  ∧ Forall (λ outcome, outcome = Throw (Error "Method not implemented."))
           (lookups this requests).2
  ∧ resolver_calls (lookups this (simultaneous 100 "ex.com")).1 ≠ 1.
Proof.
  rewrite !lookups_throw. simpl. split; [done |]. split; [| done].
  apply Forall_forall. intros outcome Hin.
  apply list_elem_of_In, in_map_iff in Hin as (r & <- & _). done.
Qed.

End Lookup.

End LookupControllerProofs.

(** ** Round-robin choice: interleaving, fairness, the recorded index *)

Module ChoiceStrategyRuns.
Import Js ChoiceStrategy ChoiceStrategyProofs.

Lemma chooseOne_round_robin_interleaved_witness :
  ∃ x, ["a"; "b"; "c"]
         !! (seen (mkArray 1%positive ["a"; "b"; "c"])
                  [mkArray 1%positive ["a"; "b"; "c"];
                   mkArray 2%positive ["x"; "y"];
                   mkArray 1%positive ["a"; "b"; "c"]] mod 3) = Some x
       ∧ (chooseOne
            (after ∅ [mkArray 1%positive ["a"; "b"; "c"];
                      mkArray 2%positive ["x"; "y"];
                      mkArray 1%positive ["a"; "b"; "c"]])
            (mkArray 1%positive ["a"; "b"; "c"])).2 = Return x.
Proof.
  apply (chooseOne_round_robin_interleaved ∅ (mkArray 1%positive ["a"; "b"; "c"])).
  - simpl. discriminate.
  - reflexivity.
  - intros b Hb Href.
    apply elem_of_cons in Hb as [-> | Hb]; [reflexivity |].
    apply elem_of_cons in Hb as [-> | Hb]; [discriminate Href |].
    apply elem_of_cons in Hb as [-> | Hb]; [reflexivity |].
    apply elem_of_nil in Hb. destruct Hb.
Defined.

(** What a call hands back depends on the map only through the entry of
    the array it is called with. *)
Lemma chooseOne_result_entry {T : Type} (this1 this2 : gmap ref nat) (a : Array T) :
  this1 !! array_ref a = this2 !! array_ref a →
  (chooseOne this1 a).2 = (chooseOne this2 a).2.
Proof.
  intros Heq. unfold chooseOne. rewrite Heq.
  repeat case_match; done.
Qed.

Lemma after_others {T : Type} (a : Array T) (calls : list (Array T)) :
  (∀ b, b ∈ calls → array_ref b ≠ array_ref a) →
  ∀ this : gmap ref nat, after this calls !! array_ref a = this !! array_ref a.
Proof.
  induction calls as [| b calls IH]; intros Hother this; [done |].
  simpl. rewrite IH by (intros c Hc; apply Hother; by right).
  apply chooseOne_other, Hother. by left.
Qed.

(** Calls made with other array instances, however many and whatever
    their elements, never change what the next call with [a] hands
    back; this holds from any state of the strategy. *)
Theorem chooseOne_unaffected_by_other_arrays {T : Type}
    (this : gmap ref nat) (a : Array T) (calls : list (Array T)) :
  (∀ b, b ∈ calls → array_ref b ≠ array_ref a) →
  (chooseOne (after this calls) a).2 = (chooseOne this a).2.
Proof.
  intros Hother. apply chooseOne_result_entry. by apply after_others.
Qed.

Lemma chooseOne_unaffected_by_other_arrays_witness :
  (chooseOne (after {[ 1%positive := 0 ]}
                    [mkArray 2%positive ["x"; "y"]; mkArray 3%positive ["a"; "b"]])
             (mkArray 1%positive ["a"; "b"])).2
  = (chooseOne {[ 1%positive := 0 ]} (mkArray 1%positive ["a"; "b"])).2.
Proof.
  apply (chooseOne_unaffected_by_other_arrays
           {[ 1%positive := 0 ]} (mkArray 1%positive ["a"; "b"])).
  intros b Hb.
  apply elem_of_cons in Hb as [-> | Hb]; [discriminate |].
  apply elem_of_cons in Hb as [-> | Hb]; [discriminate |].
  apply elem_of_nil in Hb. destruct Hb.
Defined.

(** From any state, also one left behind by a longer version of the
    array, a call with a non-empty array hands back the element at some
    valid index and leaves exactly that index in the map. *)
Theorem chooseOne_records_returned_index {T : Type}
    (this : gmap ref nat) (a : Array T) :
  array_elems a ≠ [] →
  ∃ idx x, (chooseOne this a).1 !! array_ref a = Some idx
           ∧ array_elems a !! idx = Some x
           ∧ (chooseOne this a).2 = Return x.
Proof.
  intros Hne. unfold chooseOne, index.
  destruct (array_elems a) as [| first rest] eqn:Hel; [done |].
  simpl (List.length (first :: rest) =? 0)%nat. cbv iota.
  destruct (this !! array_ref a) as [choice_index |]; simpl.
  - destruct (Nat.ltb_spec (S choice_index) (S (List.length rest))) as [Hlt | _]; simpl.
    + destruct (lookup_lt_is_Some_2 rest choice_index ltac:(lia)) as [x Hx].
      exists (S choice_index), x. rewrite lookup_insert_eq. simpl. by rewrite Hx.
    + exists 0, first. by rewrite lookup_insert_eq.
  - exists 0, first. by rewrite lookup_insert_eq.
Qed.

Lemma chooseOne_records_returned_index_witness :
  ∃ idx x, (chooseOne {[ 1%positive := 7 ]} (mkArray 1%positive ["a"; "b"])).1
             !! 1%positive = Some idx
           ∧ ["a"; "b"] !! idx = Some x
           ∧ (chooseOne {[ 1%positive := 7 ]} (mkArray 1%positive ["a"; "b"])).2
             = Return x.
Proof.
  apply (chooseOne_records_returned_index
           {[ 1%positive := 7 ]} (mkArray 1%positive ["a"; "b"])).
  simpl. discriminate.
Defined.

Lemma not_nonempty {A : Type} (l : list A) : ¬ l ≠ [] → l = [].
Proof. destruct l; [done |]. intros H. by destruct H. Qed.

(** A call that throws leaves the strategy as it was. *)
Lemma chooseOne_rejected {T : Type} (this : gmap ref nat) (a : Array T) :
  array_elems a = [] → (chooseOne this a).1 = this.
Proof. intros Hel. unfold chooseOne. by rewrite Hel. Qed.

(** Calls with empty arrays are forgotten: the strategy ends in the
    state the accepted calls alone lead to. *)
Theorem after_accepted {T : Type} (this : gmap ref nat) (calls : list (Array T)) :
  after this calls = after this (accepted calls).
Proof.
  revert this. induction calls as [| b calls IH]; intros this; [done |].
  unfold accepted. rewrite filter_cons. fold (accepted calls).
  destruct (decide (array_elems b ≠ [])) as [Hne | Hempty]; simpl.
  - apply IH.
  - rewrite chooseOne_rejected; [apply IH |].
    by apply not_nonempty.
Qed.

Lemma chooseOne_dom {T : Type} (this : gmap ref nat) (a : Array T) :
  array_elems a ≠ [] →
  dom (chooseOne this a).1 = dom this ∪ {[ array_ref a ]}.
Proof.
  intros Hne. unfold chooseOne.
  destruct (array_elems a) as [| first rest]; [done |].
  simpl (List.length (first :: rest) =? 0)%nat. cbv iota.
  repeat case_match; simpl; rewrite dom_insert_L; by rewrite (comm_L (∪)).
Qed.

(** The map gains an entry for every array instance accepted, and
    nothing else: no entry is ever dropped, and none is made for an
    array that was only ever passed empty. *)
Theorem after_dom {T : Type} (this : gmap ref nat) (calls : list (Array T)) :
  dom (after this calls) = dom this ∪ list_to_set (array_ref <$> accepted calls).
Proof.
  revert this. induction calls as [| b calls IH]; intros this.
  - simpl. by rewrite (right_id_L ∅ (∪)).
  - simpl. rewrite IH. unfold accepted. rewrite filter_cons.
    fold (accepted calls).
    destruct (decide (array_elems b ≠ [])) as [Hne | Hempty].
    + rewrite chooseOne_dom by done. rewrite fmap_cons. simpl.
      by rewrite (assoc_L (∪)).
    + rewrite chooseOne_rejected by (by apply not_nonempty). done.
Qed.

(** The results of [m] consecutive calls with [a], for a counter that
    stands at [k]. *)
Lemma results_replicate {T : Type} (a : Array T) (m : nat) :
  array_elems a ≠ [] →
  ∀ (this : gmap ref nat) (k : nat),
    this !! array_ref a = cursor (List.length (array_elems a)) k →
    results this (replicate m a)
      = (λ j, index a ((k + j) mod List.length (array_elems a))) <$> seq 0 m.
Proof.
  intros Hne. induction m as [| m IH]; intros this k Hcur; [done |].
  simpl. rewrite (chooseOne_cursor this a k Hne Hcur). simpl.
  rewrite Nat.add_0_r. f_equal.
  rewrite (IH _ (S k)) by (by rewrite lookup_insert_eq).
  rewrite <- fmap_S_seq, <- list_fmap_compose.
  apply list_fmap_ext. intros _ j _. simpl. do 2 f_equal. lia.
Qed.

Lemma rotate_nat_add_mod (base offset len : nat) :
  rotate_nat_add base offset len = (base + offset) mod len.
Proof.
  unfold rotate_nat_add.
  by rewrite <- Nat2Z.inj_add, <- Nat2Z.inj_mod, Nat2Z.id.
Qed.

Lemma rotate_perm {A : Type} (n : nat) (l : list A) : rotate n l ≡ₚ l.
Proof.
  unfold rotate. rewrite Permutation_app_comm. by rewrite take_drop.
Qed.

(** Fairness: after [i] calls with a non-empty array of [n] elements,
    the next [n] calls hand back the array rotated by [i], so every
    element exactly once. *)
Theorem chooseOne_window {T : Type}
    (this : gmap ref nat) (a : Array T) (i : nat) :
  array_elems a ≠ [] →
  this !! array_ref a = None →
  results (after this (replicate i a)) (replicate (List.length (array_elems a)) a)
    = Return <$> rotate i (array_elems a)
  ∧ rotate i (array_elems a) ≡ₚ array_elems a.
Proof.
  intros Hne Hfresh. split; [| apply rotate_perm].
  rewrite (results_replicate a _ Hne _ i).
  - apply list_eq. intros j.
    rewrite !list_lookup_fmap.
    destruct (decide (j < List.length (array_elems a))) as [Hj | Hj].
    + rewrite lookup_seq_lt by done. simpl.
      rewrite lookup_rotate_r by done. rewrite rotate_nat_add_mod.
      unfold index.
      destruct (index_mod_Some a (i + j) Hne) as [x Hx]. by rewrite Hx.
    + rewrite lookup_seq_ge by lia.
      rewrite (lookup_ge_None_2 (rotate i (array_elems a)) j); [done |].
      rewrite length_rotate. lia.
  - rewrite (after_cursor a (replicate i a) Hne) with (k := 0); [| | done].
    + by rewrite seen_replicate.
    + by intros b ->%mem_replicate.
Qed.

Lemma chooseOne_window_witness :
  results (after ∅ (replicate 4 (mkArray 1%positive ["a"; "b"; "c"])))
          (replicate 3 (mkArray 1%positive ["a"; "b"; "c"]))
    = Return <$> rotate 4 ["a"; "b"; "c"]
  ∧ rotate 4 ["a"; "b"; "c"] ≡ₚ ["a"; "b"; "c"].
Proof.
  apply (chooseOne_window ∅ (mkArray 1%positive ["a"; "b"; "c"]) 4).
  - simpl. discriminate.
  - reflexivity.
Defined.

End ChoiceStrategyRuns.

(** ** Failover decisions under arbitrary options *)

Module FailoverStrategyDecisions.
Import Js NodeDns FailoverStrategy FailoverStrategyProofs.

(** [getErrorCode] yields a code only for an object whose [code]
    property holds that string. *)
Lemma getErrorCode_Some (error : value) (code : string) :
  getErrorCode error = Some code ↔
  ∃ properties, error = VObject properties
                ∧ assoc "code" properties = Some (VString code).
Proof.
  split.
  - unfold getErrorCode, has_property, get.
    destruct error as [| | | | | | | properties | properties]; simpl; try done.
    destruct (assoc "code" properties) as [[] |] eqn:Hassoc; simpl; try done.
    intros [= ->]. by exists properties.
  - intros (properties & -> & Hassoc). by apply getErrorCode_textual.
Qed.

(** [cacheResolverFailure] answers with an object exactly for an error
    object whose [code] is a non-empty string listed in
    [cacheErrorCodes], and the object then carries [cacheErrorTtlMs]. *)
Theorem cacheResolverFailure_iff (this : UniversalFailoverStrategy)
    (error : value) (hostname : string) (instruction : CacheInstruction) :
  cacheResolverFailure this error hostname = Object instruction ↔
  instruction = {| ttlMs := cacheErrorTtlMs this |}
  ∧ ∃ properties code,
      error = VObject properties
      ∧ assoc "code" properties = Some (VString code)
      ∧ code ≠ ""
      ∧ code ∈ cacheErrorCodes this.
Proof.
  split.
  - unfold cacheResolverFailure, universal, universal_cacheResolverFailure.
    destruct (getErrorCode error) as [code |] eqn:Hcode; [| done].
    apply getErrorCode_Some in Hcode as (properties & -> & Hassoc).
    destruct (truthy_string code) eqn:Htruthy; [| done].
    destruct (includes (cacheErrorCodes this) code) eqn:Hin; [| done].
    simpl. intros [= <-]. split; [done |].
    exists properties, code.
    by rewrite <- truthy_string_nonempty, <- includes_elem_of.
  - intros (-> & properties & code & -> & Hassoc & Hne & Hin).
    rewrite (cacheResolverFailure_textual _ _ _ _ Hassoc).
    apply truthy_string_nonempty in Hne. apply includes_elem_of in Hin.
    by rewrite Hne, Hin.
Qed.

(** [useExpiredCache] answers with an object exactly for an error object
    whose [code] is a non-empty string listed in
    [useExpiredCacheOnErrorCodes], and the object then carries
    [cacheMaxExpirationMs]. *)
Theorem useExpiredCache_iff (this : UniversalFailoverStrategy)
    (error : value) (hostname : string) (instruction : ExpiredCacheInstruction) :
  useExpiredCache this error hostname = Object instruction ↔
  instruction = {| maxExpirationMs := cacheMaxExpirationMs this |}
  ∧ ∃ properties code,
      error = VObject properties
      ∧ assoc "code" properties = Some (VString code)
      ∧ code ≠ ""
      ∧ code ∈ useExpiredCacheOnErrorCodes this.
Proof.
  split.
  - unfold useExpiredCache, universal, universal_useExpiredCache.
    destruct (getErrorCode error) as [code |] eqn:Hcode; [| done].
    apply getErrorCode_Some in Hcode as (properties & -> & Hassoc).
    destruct (truthy_string code) eqn:Htruthy; [| done].
    destruct (includes (useExpiredCacheOnErrorCodes this) code) eqn:Hin; [| done].
    simpl. intros [= <-]. split; [done |].
    exists properties, code.
    by rewrite <- truthy_string_nonempty, <- includes_elem_of.
  - intros (-> & properties & code & -> & Hassoc & Hne & Hin).
    rewrite (useExpiredCache_textual _ _ _ _ Hassoc).
    apply truthy_string_nonempty in Hne. apply includes_elem_of in Hin.
    by rewrite Hne, Hin.
Qed.

Lemma includes_ext (l1 l2 : list string) :
  (∀ c, c ∈ l1 ↔ c ∈ l2) → ∀ c, includes l1 c = includes l2 c.
Proof.
  intros Hsame c. apply eq_true_iff_eq.
  by rewrite !includes_elem_of.
Qed.

(** A decision depends on the configured codes only as a set, on the
    configured duration, and on the error: the order of the codes,
    repeated codes, the hostname and the options of the other method
    make no difference. *)
Theorem decisions_depend_on_code_sets (s1 s2 : UniversalFailoverStrategy)
    (error : value) (hostname1 hostname2 : string) :
  ((∀ c, c ∈ cacheErrorCodes s1 ↔ c ∈ cacheErrorCodes s2) →
   cacheErrorTtlMs s1 = cacheErrorTtlMs s2 →
   cacheResolverFailure s1 error hostname1 = cacheResolverFailure s2 error hostname2)
  ∧ ((∀ c, c ∈ useExpiredCacheOnErrorCodes s1 ↔ c ∈ useExpiredCacheOnErrorCodes s2) →
     cacheMaxExpirationMs s1 = cacheMaxExpirationMs s2 →
     useExpiredCache s1 error hostname1 = useExpiredCache s2 error hostname2).
Proof.
  split; intros Hsame Hms;
    unfold cacheResolverFailure, useExpiredCache, universal,
           universal_cacheResolverFailure, universal_useExpiredCache;
    destruct (getErrorCode error) as [code |]; [| done | | done];
    by rewrite (includes_ext _ _ Hsame), Hms.
Qed.

(** When neither list of codes is configured, the two decisions go
    together, whatever durations are configured: an error is cached
    exactly when expired cache may be used for it. *)
Theorem default_decisions_agree (options : UniversalFailoverStrategyOptions)
    (error : value) (hostname : string) :
  opt_cacheErrorCodes options = None →
  opt_useExpiredCacheOnErrorCodes options = None →
  cacheResolverFailure (constructor (Some options)) error hostname = JsFalse
  ↔ useExpiredCache (constructor (Some options)) error hostname = JsFalse.
Proof.
  intros Hc Hu.
  unfold cacheResolverFailure, useExpiredCache, universal,
         universal_cacheResolverFailure, universal_useExpiredCache, constructor.
  simpl. rewrite Hc, Hu. simpl.
  destruct (getErrorCode error) as [code |]; [| done].
  by destruct (truthy_string code && _).
Qed.

Lemma default_decisions_agree_witness :
  cacheResolverFailure
      (constructor (Some {| opt_cacheErrorCodes := None;
                            opt_cacheErrorTtlMs := Some 5000%Z;
                            opt_cacheMaxExpirationMs := Some 60000%Z;
                            opt_useExpiredCacheOnErrorCodes := None |}))
      (createError (Some "EBADNAME")) "example.com" = JsFalse
  ↔ useExpiredCache
      (constructor (Some {| opt_cacheErrorCodes := None;
                            opt_cacheErrorTtlMs := Some 5000%Z;
                            opt_cacheMaxExpirationMs := Some 60000%Z;
                            opt_useExpiredCacheOnErrorCodes := None |}))
      (createError (Some "EBADNAME")) "example.com" = JsFalse.
Proof.
  apply default_decisions_agree; reflexivity.
Defined.

(** An empty list of codes switches a decision off for every error. *)
Theorem empty_code_list_disables (options : UniversalFailoverStrategyOptions)
    (error : value) (hostname : string) :
  (opt_cacheErrorCodes options = Some [] →
   cacheResolverFailure (constructor (Some options)) error hostname = JsFalse)
  ∧ (opt_useExpiredCacheOnErrorCodes options = Some [] →
     useExpiredCache (constructor (Some options)) error hostname = JsFalse).
Proof.
  split; intros Hopt;
    unfold cacheResolverFailure, useExpiredCache, universal,
           universal_cacheResolverFailure, universal_useExpiredCache, constructor;
    simpl; rewrite Hopt; simpl;
    (destruct (getErrorCode error) as [code |]; [| done]);
    by rewrite andb_false_r.
Qed.

(** Configured codes and durations are honoured, and each falls back to
    its default on its own: for an error built like the test suite's
    [createError(code)] with a non-empty [code], a listed code gets the
    configured duration, or 1000 ms (3600000 ms for expired cache) when
    none is configured. *)
Theorem configured_options_honoured (options : UniversalFailoverStrategyOptions)
    (code hostname : string) :
  code ≠ "" →
  (code ∈ default default_codes (opt_cacheErrorCodes options) →
   cacheResolverFailure (constructor (Some options)) (createError (Some code)) hostname
     = Object {| ttlMs := default 1000%Z (opt_cacheErrorTtlMs options) |})
  ∧ (code ∈ default default_codes (opt_useExpiredCacheOnErrorCodes options) →
     useExpiredCache (constructor (Some options)) (createError (Some code)) hostname
       = Object {| maxExpirationMs :=
                     default 3600000%Z (opt_cacheMaxExpirationMs options) |}).
Proof.
  intros Hne%truthy_string_nonempty. unfold createError.
  split; intros Hin%includes_elem_of.
  - rewrite (cacheResolverFailure_textual _ _ code) by reflexivity.
    rewrite Hne. simpl. unfold default_codes in Hin. by rewrite Hin.
  - rewrite (useExpiredCache_textual _ _ code) by reflexivity.
    rewrite Hne. simpl. unfold default_codes in Hin. by rewrite Hin.
Qed.

Lemma configured_options_honoured_witness :
  ("cache this" ∈ default default_codes (Some ["cache this"; "cache that"]) →
   cacheResolverFailure
       (constructor (Some {| opt_cacheErrorCodes := Some ["cache this"; "cache that"];
                             opt_cacheErrorTtlMs := Some 5000%Z;
                             opt_cacheMaxExpirationMs := None;
                             opt_useExpiredCacheOnErrorCodes := None |}))
       (createError (Some "cache this")) "example.com"
     = Object {| ttlMs := default 1000%Z (Some 5000%Z) |})
  ∧ ("cache this" ∈ default default_codes None →
     useExpiredCache
         (constructor (Some {| opt_cacheErrorCodes := Some ["cache this"; "cache that"];
                               opt_cacheErrorTtlMs := Some 5000%Z;
                               opt_cacheMaxExpirationMs := None;
                               opt_useExpiredCacheOnErrorCodes := None |}))
         (createError (Some "cache this")) "example.com"
       = Object {| maxExpirationMs := default 3600000%Z None |}).
Proof.
  apply (configured_options_honoured
           {| opt_cacheErrorCodes := Some ["cache this"; "cache that"];
              opt_cacheErrorTtlMs := Some 5000%Z;
              opt_cacheMaxExpirationMs := None;
              opt_useExpiredCacheOnErrorCodes := None |}
           "cache this" "example.com").
  discriminate.
Defined.

End FailoverStrategyDecisions.

(** ** The hosts file path on every platform *)

Module HostsFileServicePaths.
Import Js HostsFileService.

(** The [path] option counts as missing in three cases: no argument, no
    [path] property (or [undefined]), and the empty string. *)
Lemma falsy_path (options : option UniversalHostsFileServiceOptions) :
  falsy (opt_path (default {| opt_path := None |} options)) = true ↔
  options = None
  ∨ options = Some {| opt_path := None |}
  ∨ options = Some {| opt_path := Some "" |}.
Proof.
  split.
  - destruct options as [[[p |]] |]; simpl; [| by auto | by auto].
    destruct p; simpl; [by auto | done].
  - by intros [-> | [-> | ->]].
Qed.

(** A non-empty [path] option is stored as it is on every platform,
    supported or not: the platform is not looked at. *)
Theorem explicit_path_wins (platform p : string) :
  p ≠ "" →
  constructor platform (Some {| opt_path := Some p |}) = Return {| path := p |}.
Proof. intros Hp. by destruct p. Qed.

Lemma explicit_path_wins_witness :
  constructor "freebsd" (Some {| opt_path := Some "/root/etc/hosts" |})
    = Return {| path := "/root/etc/hosts" |}.
Proof. apply explicit_path_wins. discriminate. Defined.

(** On linux and darwin a missing [path], the empty string included,
    gives [/etc/hosts]. *)
Theorem unix_default_path (platform : string)
    (options : option UniversalHostsFileServiceOptions) :
  falsy (opt_path (default {| opt_path := None |} options)) = true →
  platform = "linux" ∨ platform = "darwin" →
  constructor platform options = Return {| path := "/etc/hosts" |}.
Proof.
  intros Hfalsy Hunix. unfold constructor. rewrite Hfalsy.
  by destruct Hunix as [-> | ->].
Qed.

Lemma unix_default_path_witness :
  constructor "darwin" (Some {| opt_path := Some "" |})
    = Return {| path := "/etc/hosts" |}.
Proof. apply unix_default_path; [reflexivity | by right]. Defined.

(** The constructor throws exactly when the [path] is missing and the
    platform is none of darwin, linux, win32; what it throws is
    [UnsupportedPlatform] holding the platform's name. *)
Theorem constructor_throws_iff (platform : string)
    (options : option UniversalHostsFileServiceOptions) (e : error) :
  constructor platform options = Throw e ↔
  falsy (opt_path (default {| opt_path := None |} options)) = true
  ∧ supported platform = false
  ∧ e = UnsupportedPlatform platform.
Proof.
  unfold constructor, supported.
  destruct (falsy _); [| split; [done | by intros [? _]]].
  destruct (String.eqb platform "darwin"), (String.eqb platform "linux"),
           (String.eqb platform "win32"); simpl;
    (split; [try done; by intros [= <-] | try (by intros (_ & ? & _)); by intros (_ & _ & ->)]).
Qed.

(** Whatever the platform and the options, a service that gets
    constructed holds a non-empty path. *)
Theorem constructed_path_nonempty (platform : string)
    (options : option UniversalHostsFileServiceOptions)
    (service : UniversalHostsFileService) :
  constructor platform options = Return service →
  path service ≠ "".
Proof.
  unfold constructor.
  destruct (opt_path (default {| opt_path := None |} options)) as [[| c p] |]; simpl.
  1, 3: repeat case_match; try done; by intros [= <-].
  by intros [= <-].
Qed.

Lemma constructed_path_nonempty_witness :
  constructor "win32" None = Return {| path := cooked win32_literal |}
  ∧ path {| path := cooked win32_literal |} ≠ "".
Proof.
  split; [reflexivity |].
  apply (constructed_path_nonempty "win32" None {| path := cooked win32_literal |}).
  reflexivity.
Defined.

End HostsFileServicePaths.

(** ** Constructing a controller *)

Module ConstructionProofs.
Import Js LookupController Construction.

Section Constructor.

Context {Cache Choice Failover Hosts IsIp Storage Resolver Throttling : Type}.

Local Abbreviation Options :=
  (LookupControllerOptions Cache Choice Failover Hosts IsIp Storage Resolver
     Throttling).

(** [new LookupController(options)] throws exactly when no
    [hostsFileService] is supplied and the platform is none of darwin,
    linux, win32: the default hosts file service cannot be built, and
    its [UnsupportedPlatform] error comes out of the controller's
    constructor.  Supplying a hosts file service avoids it. *)
Theorem controller_constructor_throws_iff (platform : string) (options : option Options)
    (e : error) :
  constructor platform options = Throw e ↔
  opt_hostsFileService (default no_options options) = None
  ∧ HostsFileService.supported platform = false
  ∧ e = UnsupportedPlatform platform.
Proof.
  unfold constructor.
  destruct (opt_hostsFileService (default no_options options)) as [s |].
  - split; [done | by intros [? _]].
  - pose proof (HostsFileServicePaths.constructor_throws_iff platform None e) as Hhosts.
    destruct (HostsFileService.constructor platform None) as [d | | e'] eqn:Hc.
    + split; [done |]. intros (_ & Hs & He).
      assert (Return d = Throw e) as Habs by (by apply Hhosts).
      discriminate Habs.
    + split; [done |]. intros (_ & Hs & He).
      assert (@ReturnUndefined HostsFileService.UniversalHostsFileService = Throw e)
        as Habs by (by apply Hhosts).
      discriminate Habs.
    + split.
      * intros [= ->]. split; [done |].
        by destruct (proj1 Hhosts eq_refl) as (_ & ? & ?).
      * intros (_ & Hs & He).
        assert (@Throw HostsFileService.UniversalHostsFileService e' = Throw e)
          as [= ->] by (by apply Hhosts).
        done.
Qed.

(** In a controller that gets constructed, throttling is off ([null])
    exactly when [throttlingStrategy: null] was passed, an omitted one
    being replaced by the built-in strategy; and there is a persistent
    storage exactly when one was passed. *)
Theorem constructor_nullables (platform : string) (options : option Options)
    (controller : Controller Cache Choice Failover Hosts IsIp Storage Resolver
                    Throttling) :
  constructor platform options = Return controller →
  (throttlingStrategy controller = None
   ↔ opt_throttlingStrategy (default no_options options) = Null)
  ∧ (opt_throttlingStrategy (default no_options options) = Undefined
     → throttlingStrategy controller = Some (Builtin UniversalThrottlingStrategy_new))
  ∧ (∀ s, persistentStorageService controller = Some (Given s)
          ↔ opt_persistentStorageService (default no_options options) = Value s).
Proof.
  unfold constructor.
  destruct (match opt_hostsFileService (default no_options options) with
            | Some s => _ | None => _ end) as [h | |]; [| done | done].
  intros [= <-]. simpl.
  destruct (opt_throttlingStrategy (default no_options options)),
           (opt_persistentStorageService (default no_options options));
    simpl; repeat split; try done; try (by intros [= ->]); try (by intros [= <-]).
Qed.

End Constructor.

Lemma constructor_nullables_witness :
  ∃ controller : Controller unit unit unit unit unit unit unit unit,
    constructor "linux"
      (Some {| opt_cacheService := None; opt_choiceStrategy := None;
               opt_failoverStrategy := None; opt_hostsFileService := None;
               opt_isIpService := None;
               opt_persistentStorageService := Value tt;
               opt_resolverService := None;
               opt_throttlingStrategy := Null |}) = Return controller
    ∧ throttlingStrategy controller = None
    ∧ persistentStorageService controller = Some (Given tt).
Proof.
  eexists. split; [reflexivity |].
  destruct (constructor_nullables
              (Cache := unit) (Choice := unit) (Failover := unit) (Hosts := unit)
              (IsIp := unit) (Storage := unit) (Resolver := unit)
              (Throttling := unit) "linux"
              (Some {| opt_cacheService := None; opt_choiceStrategy := None;
                       opt_failoverStrategy := None; opt_hostsFileService := None;
                       opt_isIpService := None;
                       opt_persistentStorageService := Value tt;
                       opt_resolverService := None;
                       opt_throttlingStrategy := Null |})
              _ eq_refl) as (Hthrottling & _ & Hstorage).
  split; [by apply Hthrottling | by apply Hstorage].
Defined.

End ConstructionProofs.
